(** * Webhook transaction processor: ingestion gate, ledger store and
      settlement worker.

    Shallow embedding of [app/db/models.py], [app/schemas/transaction.py],
    [app/api/routes.py] and [app/services/processor.py].

    Modelling conventions:
    - the [transactions] table is a list of rows in storage order; an
      unordered [.first()] query returns the first matching row;
    - the UUID primary key is its integer value; [uuid.uuid4()] is an
      input of [receive_webhook] (the generated value);
    - timestamps are integers (seconds) of one clock shared by the
      database ([func.now()]) and the worker ([datetime.utcnow()]);
    - amounts are in hundredths ([Numeric(12, 2)]);
    - a storage failure other than a constraint violation (lost
      connection, ...) is an explicit input of the operation that commits. *)

From Stdlib Require Import ZArith Lia.
From stdpp Require Import base list strings relations.

Local Open Scope Z_scope.

(** ** models.py *)

Record Transaction := mkTransaction {
  id : Z;
  transaction_id : string;
  source_account : string;
  destination_account : string;
  amount : Z;
  currency : string;
  status : string;
  created_at : Z;
  processed_at : option Z
}.

(** The [transactions] table. *)
Abbreviation table := (list Transaction) (only parsing).

(** ** schemas/transaction.py *)

Module Schemas.

Record TransactionCreate := mkTransactionCreate {
  transaction_id : string;
  source_account : string;
  destination_account : string;
  amount : Z;
  currency : string
}.

End Schemas.

(** ** The database session: [db.add(txn); db.commit()] *)

(** Constraints of the [transactions] table: the primary key on [id] and
    [unique=True] on [transaction_id]. *)
Inductive constraint :=
| transactions_pkey
| transactions_transaction_id_key.

(** Storage failures that are not constraint violations. *)
Inductive storage_fault :=
| OperationalError
| DataError.

(** The exceptions SQLAlchemy raises from [commit]. *)
Inductive DBAPIError :=
| IntegrityError (c : constraint)
| OtherDBError (f : storage_fault).

(** [INSERT] of one row followed by [COMMIT]. *)
Definition insert_commit (fault : option storage_fault) (txn : Transaction)
    (db : table) : DBAPIError + table :=
  match fault with
  | Some f => inl (OtherDBError f)
  | None =>
      if existsb (fun r => bool_decide (id r = id txn)) db
      then inl (IntegrityError transactions_pkey)
      else if existsb (fun r => bool_decide (transaction_id r = transaction_id txn)) db
      then inl (IntegrityError transactions_transaction_id_key)
      else inr (db ++ [txn])
  end.

(** ** routes.py: [receive_webhook] *)

(** What the HTTP caller receives: the [{"message": "accepted"}] body with
    status 202, or an internal server error for an exception that escapes
    the handler. *)
Inductive response :=
| Accepted (message : string)
| InternalServerError (e : DBAPIError).

(** The row built by [Transaction(transaction_id=payload.transaction_id,
    ..., status="PROCESSING")]; [id] comes from [default=uuid.uuid4],
    [created_at] from [server_default=func.now()], [processed_at] is left
    NULL. *)
Definition webhook_row (new_id now : Z) (payload : Schemas.TransactionCreate)
    : Transaction :=
  {| id := new_id;
     transaction_id := Schemas.transaction_id payload;
     source_account := Schemas.source_account payload;
     destination_account := Schemas.destination_account payload;
     amount := Schemas.amount payload;
     currency := Schemas.currency payload;
     status := "PROCESSING";
     created_at := now;
     processed_at := None |}.

(** [receive_webhook new_id fault now payload db] returns the response,
    the table after the request, and the transaction ids handed to
    [background_tasks.add_task(process_transaction, ...)]. *)
Definition receive_webhook (new_id : Z) (fault : option storage_fault) (now : Z)
    (payload : Schemas.TransactionCreate) (db : table)
    : response * table * list string :=
  let txn := webhook_row new_id now payload in
  match insert_commit fault txn db with
  | inr db' => (Accepted "accepted", db', [Schemas.transaction_id payload])
  | inl (IntegrityError _) =>
      (* db.rollback(); duplicate webhook: ignore, still return 202 *)
      (Accepted "accepted", db, [])
  | inl e => (InternalServerError e, db, [])
  end.

(** ** routes.py: [get_transaction] *)

(** The first row whose [transaction_id] matches:
    [db.query(Transaction).filter(...).first()]. *)
Definition query_first (db : table) (tid : string) : option Transaction :=
  snd <$> list_find (fun r => transaction_id r = tid) db.

(** Python exceptions raised by the handler. *)
Inductive py_exc :=
| NameError (name : string)
| HTTPException (status_code : Z) (detail : string).

(** The names bound in the module namespace of [routes.py]: its imports
    and its own top-level definitions. *)
Definition routes_globals : list string :=
  ["APIRouter"; "Depends"; "BackgroundTasks"; "Session"; "IntegrityError";
   "SessionLocal"; "Transaction"; "TransactionCreate"; "TransactionResponse";
   "process_transaction"; "List"; "router"; "get_db"; "receive_webhook";
   "get_transaction"].

(** [raise HTTPException(status_code=c, detail=d)]: the name is resolved
    first, and an unbound name raises [NameError]. *)
Definition raise_HTTPException (c : Z) (d : string) : py_exc :=
  if bool_decide ("HTTPException" ∈ routes_globals)
  then HTTPException c d
  else NameError "HTTPException".

(** The handler: a read of the table, which it does not return. *)
Definition get_transaction (db : table) (tid : string) : py_exc + list Transaction :=
  match query_first db tid with
  | None => inl (raise_HTTPException 404 "Transaction not found")
  | Some txn => inr [txn]
  end.

(** What FastAPI sends back: the body, the status of an [HTTPException],
    or 500 for any other exception. *)
Inductive http_reply :=
| Reply200 (body : list Transaction)
| ReplyError (status_code : Z) (detail : string).

Definition fastapi_reply (r : py_exc + list Transaction) : http_reply :=
  match r with
  | inr body => Reply200 body
  | inl (HTTPException c d) => ReplyError c d
  | inl (NameError _) => ReplyError 500 "Internal Server Error"
  end.

(** ** schemas/transaction.py: [TransactionResponse], the body of a found
    lookup ([response_model=List[TransactionResponse]], [orm_mode]): the
    attributes of the row, without its internal [id]. *)

Module ResponseSchema.


End ResponseSchema.



(** ** processor.py: [process_transaction] *)

(** The simulated settlement latency, [time.sleep(30)]. *)
Definition settlement_delay : Z := 30.

(** [txn.status = "PROCESSED"; txn.processed_at = datetime.utcnow()]. *)
Definition mark_processed (at_time : Z) (txn : Transaction) : Transaction :=
  {| id := id txn;
     transaction_id := transaction_id txn;
     source_account := source_account txn;
     destination_account := destination_account txn;
     amount := amount txn;
     currency := currency txn;
     status := "PROCESSED";
     created_at := created_at txn;
     processed_at := Some at_time |}.

(** The body of [process_transaction] after the sleep, run at time [now]:
    returns the exception it raises (if any) and the table afterwards. *)
Definition process_transaction (fault : option storage_fault) (now : Z)
    (tid : string) (db : table) : option DBAPIError * table :=
  match list_find (fun r => transaction_id r = tid) db with
  | None => (None, db)
  | Some (i, txn) =>
      match fault with
      | None => (None, <[i := mark_processed now txn]> db)
      | Some f => (Some (OtherDBError f), db)
      end
  end.

(** ** The running system

    A state is the table, the settlement tasks handed to the background
    scheduler (each with the earliest time its sleep can end) and the
    clock. A step is a webhook request, the passing of time, or a
    background task that has slept its delay and runs its body. *)

Record sys := mkSys {
  store : table;
  pending : list (string * Z);
  clock : Z
}.

Inductive step : sys -> sys -> Prop :=
| step_webhook st new_id fault payload resp db' ts :
    receive_webhook new_id fault (clock st) payload (store st) = (resp, db', ts) ->
    step st (mkSys db'
               (pending st ++ ((fun tid => (tid, clock st + settlement_delay)) <$> ts))
               (clock st))
| step_tick st d :
    0 <= d ->
    step st (mkSys (store st) (pending st) (clock st + d))
| step_settle st pre tid due post fault err db' :
    pending st = pre ++ (tid, due) :: post ->
    due <= clock st ->
    process_transaction fault (clock st) tid (store st) = (err, db') ->
    step st (mkSys db' (pre ++ post) (clock st)).

(** The service starts with an empty table and no tasks. *)
Definition init (t0 : Z) : sys := mkSys [] [] t0.

Inductive reachable : sys -> Prop :=
| reachable_init t0 : reachable (init t0)
| reachable_step st st' : reachable st -> step st st' -> reachable st'.

(** A row is well formed at time [now]. *)
Definition row_ok (now : Z) (r : Transaction) : Prop :=
  created_at r <= now /\
  ((status r = "PROCESSING" /\ processed_at r = None) \/
   (status r = "PROCESSED" /\ exists t, processed_at r = Some t /\ created_at r <= t)).

(** The invariant of reachable states. *)
Definition sys_inv (st : sys) : Prop :=
  Forall (row_ok (clock st)) (store st) /\
  NoDup (transaction_id <$> store st) /\
  Forall (fun task => fst task ∈ transaction_id <$> store st) (pending st).

(** Every row stored for [tid] is settled, and there is one. *)
Definition settled (db : table) (tid : string) : Prop :=
  tid ∈ transaction_id <$> db /\
  Forall (fun r => transaction_id r = tid -> status r = "PROCESSED") db.

(** Further invariant of reachable states, given [sys_inv]: generated ids
    are distinct; there is at most one task per transaction id; the row of
    a pending task is still [PROCESSING] and the task's sleep ends
    [settlement_delay] after the row's [created_at]; a [PROCESSED] row was
    settled no earlier than that. *)
Definition sys_inv2 (st : sys) : Prop :=
  NoDup (id <$> store st) /\
  NoDup (fst <$> pending st) /\
  Forall (fun task => Forall (fun r => transaction_id r = fst task ->
            status r = "PROCESSING" /\ created_at r + settlement_delay = snd task)
            (store st)) (pending st) /\
  Forall (fun r => status r = "PROCESSED" ->
            exists t, processed_at r = Some t /\ created_at r + settlement_delay <= t)
         (store st).

(** The row of [tid] is stored, still [PROCESSING], and no task for it is
    pending. *)
Definition stuck (st : sys) (tid : string) : Prop :=
  tid ∈ transaction_id <$> store st /\
  (tid ∉ fst <$> pending st) /\
  Forall (fun r => transaction_id r = tid -> status r = "PROCESSING") (store st).

(** ** Concrete requests and states used as examples *)

Definition tx1 : Schemas.TransactionCreate :=
  Schemas.mkTransactionCreate "tx-1" "A" "B" 1000 "USD".

Definition tx1_retry : Schemas.TransactionCreate :=
  Schemas.mkTransactionCreate "tx-1" "C" "D" 99999 "EUR".

Definition tx2 : Schemas.TransactionCreate :=
  Schemas.mkTransactionCreate "tx-2" "A" "B" 500 "USD".

(** The state after [tx1] was accepted at time 0 and its task slept 30s. *)
Definition st_waited : sys := mkSys [webhook_row 1 0 tx1] [("tx-1", 30)] 30.

(** [st_waited] after the task of ["tx-1"] ran at time 30. *)
Definition st_done : sys := mkSys [mark_processed 30 (webhook_row 1 0 tx1)] [] 30.

(** ** Lemmas on the operations *)

Lemma existsb_decide_false {A} (P : A -> Prop) `{forall x, Decision (P x)} (l : list A) :
  existsb (fun x => bool_decide (P x)) l = false <-> Forall (fun x => ~ P x) l.
Proof.
  induction l as [|x l IH]; simpl.
  - split; auto.
  - rewrite Bool.orb_false_iff, Forall_cons, IH, bool_decide_eq_false. tauto.
Qed.

Lemma insert_commit_inr fault txn db db' :
  insert_commit fault txn db = inr db' ->
  fault = None /\ db' = db ++ [txn] /\
  Forall (fun r => id r <> id txn) db /\
  Forall (fun r => transaction_id r <> transaction_id txn) db.
Proof.
  unfold insert_commit. destruct fault; [discriminate|].
  destruct (existsb (fun r => bool_decide (id r = id txn)) db) eqn:E1;
    [discriminate|].
  destruct (existsb (fun r => bool_decide (transaction_id r = transaction_id txn)) db)
    eqn:E2; [discriminate|].
  intros Heq. injection Heq as <-.
  apply existsb_decide_false in E1, E2. auto.
Qed.

Lemma insert_commit_inl fault txn db e :
  insert_commit fault txn db = inl e ->
  (exists f, fault = Some f /\ e = OtherDBError f) \/
  (fault = None /\ exists c, e = IntegrityError c).
Proof.
  unfold insert_commit. destruct fault as [f|].
  - intros Heq. injection Heq as <-. eauto.
  - destruct (existsb (fun r => bool_decide (id r = id txn)) db);
      [intros Heq; injection Heq as <-; eauto|].
    destruct (existsb (fun r => bool_decide (transaction_id r = transaction_id txn)) db);
      [intros Heq; injection Heq as <-; eauto|].
    discriminate.
Qed.

(** Every outcome of [receive_webhook]: either nothing is stored and no
    task is scheduled, or the row is appended, the request is accepted and
    exactly its task is scheduled. *)
Lemma receive_webhook_cases new_id fault now payload db resp db' ts :
  receive_webhook new_id fault now payload db = (resp, db', ts) ->
  (db' = db /\ ts = [] /\
   (resp = Accepted "accepted" \/ exists f, fault = Some f /\ resp = InternalServerError (OtherDBError f))) \/
  (fault = None /\ resp = Accepted "accepted" /\
   ts = [Schemas.transaction_id payload] /\
   db' = db ++ [webhook_row new_id now payload] /\
   Forall (fun r => id r <> new_id) db /\
   Forall (fun r => transaction_id r <> Schemas.transaction_id payload) db).
Proof.
  unfold receive_webhook.
  destruct (insert_commit fault _ db) as [e|db''] eqn:E.
  - apply insert_commit_inl in E as [(f & -> & ->)|(-> & c & ->)];
      intros Heq; injection Heq as <- <- <-; left; eauto 10.
  - apply insert_commit_inr in E as (-> & -> & H1 & H2).
    intros Heq; injection Heq as <- <- <-. right. auto 10.
Qed.

Lemma process_transaction_cases fault now tid db err db' :
  process_transaction fault now tid db = (err, db') ->
  db' = db \/
  (fault = None /\ err = None /\ exists i txn,
     list_find (fun r => transaction_id r = tid) db = Some (i, txn) /\
     db' = <[i := mark_processed now txn]> db).
Proof.
  unfold process_transaction.
  destruct (list_find _ db) as [[i txn]|] eqn:E.
  - destruct fault; intros Heq; injection Heq as <- <-; [left; done|].
    right. eauto 10.
  - intros Heq; injection Heq as <- <-. left; done.
Qed.

(** The worker never changes which transaction ids are stored, nor where. *)
Lemma process_transaction_ids fault now tid db :
  transaction_id <$> snd (process_transaction fault now tid db) = transaction_id <$> db.
Proof.
  destruct (process_transaction fault now tid db) as [err db'] eqn:E; cbn [snd].
  apply process_transaction_cases in E
    as [->|(_ & _ & i & txn & Hfind & ->)]; [done|].
  apply list_find_Some in Hfind as (Hi & _ & _).
  rewrite list_fmap_insert. simpl.
  apply list_insert_id. rewrite list_lookup_fmap, Hi. done.
Qed.

Lemma process_transaction_ids' fault now tid db err db' :
  process_transaction fault now tid db = (err, db') ->
  transaction_id <$> db' = transaction_id <$> db.
Proof.
  intros E. rewrite <- (process_transaction_ids fault now tid db), E. done.
Qed.

Lemma row_ok_mono now now' r : now <= now' -> row_ok now r -> row_ok now' r.
Proof. unfold row_ok. intros ? [? ?]. split; [lia | done]. Qed.

Lemma row_ok_webhook_row new_id now payload : row_ok now (webhook_row new_id now payload).
Proof. unfold row_ok. simpl. split; [lia | left; auto]. Qed.

Lemma row_ok_mark_processed now txn :
  row_ok now txn -> row_ok now (mark_processed now txn).
Proof.
  unfold row_ok. intros [Hc _]. simpl. split; [lia|].
  right. split; [done|]. exists now. split; [done | lia].
Qed.

Create HintDb webhook.
Global Hint Resolve row_ok_webhook_row row_ok_mark_processed : webhook.

Lemma Forall_pending_remove (P : string * Z -> Prop) pre x post :
  Forall P (pre ++ x :: post) -> Forall P (pre ++ post).
Proof. rewrite !Forall_app, Forall_cons. tauto. Qed.

Lemma step_inv st st' : sys_inv st -> step st st' -> sys_inv st'.
Proof.
  intros (Hrows & Hnodup & Htasks) Hstep.
  destruct Hstep as [st new_id fault payload resp db' ts Hw
                    | st d Hd
                    | st pre tid due post fault err db' Hpend Hdue Hp];
    unfold sys_inv; simpl.
  - apply receive_webhook_cases in Hw
      as [(-> & -> & _) | (-> & -> & -> & -> & Hids & Htids)].
    + rewrite fmap_nil, app_nil_r. auto.
    + rewrite fmap_app. simpl. split_and!.
      * apply Forall_app. split; [done|]. constructor; auto with webhook.
      * apply NoDup_app. split_and!; [done| |apply NoDup_singleton].
        intros x Hx Hin. apply list_elem_of_singleton in Hin as ->.
        apply list_elem_of_fmap in Hx as (r & Hr & Hin).
        rewrite Forall_forall in Htids. by apply (Htids r).
      * apply Forall_app. split.
        -- eapply Forall_impl; [exact Htasks|]. intros task Ht.
           apply elem_of_app. by left.
        -- constructor; [|constructor]. simpl.
           apply elem_of_app. right. apply list_elem_of_singleton. done.
  - split_and!; [|done|done].
    eapply Forall_impl; [exact Hrows|]. intros r. apply row_ok_mono. lia.
  - rewrite Hpend in Htasks. apply Forall_pending_remove in Htasks.
    pose proof (process_transaction_ids' _ _ _ _ _ _ Hp) as Hids.
    rewrite Hids. split_and!; [|done|done].
    apply process_transaction_cases in Hp as [-> | (_ & _ & i & txn & Hfind & ->)];
      [done|].
    apply list_find_Some in Hfind as (Hi & _ & _).
    apply Forall_insert; [done|]. apply row_ok_mark_processed.
    eapply Forall_lookup_1; eauto.
Qed.

Lemma reachable_inv st : reachable st -> sys_inv st.
Proof.
  induction 1 as [t0 | st st' _ IH Hstep].
  - unfold sys_inv, init. simpl. split_and!; constructor.
  - eapply step_inv; eauto.
Qed.

Lemma steps_reachable st st' : reachable st -> rtc step st st' -> reachable st'.
Proof. intros Hr Hs. induction Hs; eauto using reachable. Qed.

Lemma query_first_Some db tid r :
  query_first db tid = Some r -> r ∈ db /\ transaction_id r = tid.
Proof.
  unfold query_first. intros (p & Hfind & ->)%fmap_Some.
  destruct p as [i x]. apply list_find_Some in Hfind as (Hi & Htid & _).
  split; [eapply list_elem_of_lookup_2; eauto | done].
Qed.

Lemma query_first_exists db tid :
  tid ∈ transaction_id <$> db -> exists r, query_first db tid = Some r.
Proof.
  intros (r & -> & Hr)%list_elem_of_fmap.
  destruct (list_find_elem_of (fun x => transaction_id x = transaction_id r) db r Hr eq_refl)
    as [[i x] Hfind].
  unfold query_first. rewrite Hfind. eauto.
Qed.

Lemma step_settled st st' tid :
  settled (store st) tid -> step st st' -> settled (store st') tid.
Proof.
  intros [Hin Hall] Hstep.
  destruct Hstep as [st new_id fault payload resp db' ts Hw
                    | st d Hd
                    | st pre tid' due post fault err db' Hpend Hdue Hp];
    unfold settled; simpl.
  - apply receive_webhook_cases in Hw
      as [(-> & _ & _) | (_ & _ & _ & -> & _ & Htids)]; [done|].
    rewrite fmap_app. split; [apply elem_of_app; by left|].
    apply Forall_app. split; [done|]. constructor; [|constructor].
    simpl. intros Heq. exfalso.
    apply list_elem_of_fmap in Hin as (r & -> & Hr).
    rewrite Forall_forall in Htids. by apply (Htids r).
  - done.
  - rewrite (process_transaction_ids' _ _ _ _ _ _ Hp). split; [done|].
    apply process_transaction_cases in Hp as [-> | (_ & _ & i & txn & _ & ->)];
      [done|].
    apply Forall_insert; [done|]. done.
Qed.

Lemma steps_settled st st' tid :
  settled (store st) tid -> rtc step st st' -> settled (store st') tid.
Proof. intros H Hs. induction Hs; eauto using step_settled. Qed.

(** Running the settlement task of a stored transaction settles it. *)
Lemma process_transaction_settles now tid db db' :
  NoDup (transaction_id <$> db) -> tid ∈ transaction_id <$> db ->
  snd (process_transaction None now tid db) = db' -> settled db' tid.
Proof.
  intros Hnodup Hin Hdb'.
  pose proof (process_transaction_ids None now tid db) as Hids.
  rewrite Hdb' in Hids. split; [by rewrite Hids|].
  revert Hdb'. unfold process_transaction.
  apply list_elem_of_fmap in Hin as (r & Hr_tid & Hr).
  destruct (list_find (fun r => transaction_id r = tid) db) as [[i txn]|] eqn:Hfind.
  2:{ exfalso. apply list_find_None in Hfind. rewrite Forall_forall in Hfind.
      by apply (Hfind r). }
  simpl. intros <-.
  apply list_find_Some in Hfind as (Hi & Htid & _).
  apply Forall_lookup. intros j y Hj Hy.
  apply list_lookup_insert_Some in Hj as [(-> & <- & _) | (Hne & Hj)]; [done|].
  exfalso. apply Hne.
  apply (NoDup_lookup _ _ _ tid Hnodup).
  - rewrite list_lookup_fmap, Hi. simpl. by rewrite Htid.
  - rewrite list_lookup_fmap, Hj. simpl. by rewrite Hy.
Qed.

(** A row that is [PROCESSED] stays at its place, with its keys, and stays
    [PROCESSED]. *)
Lemma step_keeps_processed st st' i r :
  step st st' -> store st !! i = Some r -> status r = "PROCESSED" ->
  exists r', store st' !! i = Some r' /\ id r' = id r /\
             transaction_id r' = transaction_id r /\ status r' = "PROCESSED".
Proof.
  intros Hstep Hi Hst.
  destruct Hstep as [st new_id fault payload resp db' ts Hw
                    | st d Hd
                    | st pre tid due post fault err db' Hpend Hdue Hp]; simpl.
  - apply receive_webhook_cases in Hw
      as [(-> & _ & _) | (_ & _ & _ & -> & _ & _)]; [eauto|].
    exists r. split; [by apply lookup_app_l_Some | auto].
  - eauto.
  - apply process_transaction_cases in Hp as [-> | (_ & _ & k & txn & Hfind & ->)];
      [eauto|].
    apply list_find_Some in Hfind as (Hk & _ & _).
    destruct (decide (k = i)) as [<-|Hne].
    + rewrite Hk in Hi. injection Hi as <-.
      exists (mark_processed (clock st) txn).
      rewrite list_lookup_insert_eq by (eapply lookup_lt_Some; eauto).
      simpl. auto.
    + exists r. rewrite list_lookup_insert_ne by done. auto.
Qed.

Lemma insert_commit_fresh txn db :
  Forall (fun r => id r <> id txn) db ->
  Forall (fun r => transaction_id r <> transaction_id txn) db ->
  insert_commit None txn db = inr (db ++ [txn]).
Proof.
  intros H1 H2. unfold insert_commit.
  apply (proj2 (existsb_decide_false _ _)) in H1, H2. by rewrite H1, H2.
Qed.

Lemma insert_commit_duplicate txn db r :
  r ∈ db -> transaction_id r = transaction_id txn ->
  exists c, insert_commit None txn db = inl (IntegrityError c).
Proof.
  intros Hr Htid. unfold insert_commit.
  destruct (existsb (fun r => bool_decide (id r = id txn)) db); [eauto|].
  destruct (existsb (fun r => bool_decide (transaction_id r = transaction_id txn)) db)
    eqn:E; [eauto|].
  apply existsb_decide_false in E. rewrite Forall_forall in E.
  exfalso. by apply (E r).
Qed.

(** A request for a stored transaction id, with no storage failure, is a
    duplicate: acknowledged, nothing stored, nothing scheduled. *)
Lemma receive_webhook_duplicate new_id now payload db r :
  r ∈ db -> transaction_id r = Schemas.transaction_id payload ->
  receive_webhook new_id None now payload db = (Accepted "accepted", db, []).
Proof.
  intros Hr Htid. unfold receive_webhook.
  destruct (insert_commit_duplicate (webhook_row new_id now payload) db r Hr Htid)
    as [c ->].
  done.
Qed.

Lemma receive_webhook_fresh new_id now payload db :
  Forall (fun r => id r <> new_id) db ->
  Forall (fun r => transaction_id r <> Schemas.transaction_id payload) db ->
  receive_webhook new_id None now payload db =
    (Accepted "accepted", db ++ [webhook_row new_id now payload],
     [Schemas.transaction_id payload]).
Proof.
  intros H1 H2. unfold receive_webhook. rewrite insert_commit_fresh; done.
Qed.

Lemma filter_none {A} (P : A -> Prop) `{forall x, Decision (P x)} (l : list A) :
  Forall (fun x => ~ P x) l -> filter P l = [].
Proof.
  induction 1 as [|x l Hx _ IH]; [done|]. by rewrite filter_cons_False.
Qed.

Lemma list_find_insert_same (P : Transaction -> Prop) `{forall x, Decision (P x)}
    (l : table) i x y :
  list_find P l = Some (i, x) -> P y -> list_find P (<[i := y]> l) = Some (i, y).
Proof.
  intros (Hi & _ & Hleast)%list_find_Some Hy.
  apply list_find_Some. split_and!.
  - apply list_lookup_insert_eq. eapply lookup_lt_Some; eauto.
  - done.
  - intros j z Hj Hlt. rewrite list_lookup_insert_ne in Hj by lia.
    eapply Hleast; eauto.
Qed.

Lemma st_waited_reachable : reachable st_waited.
Proof.
  pose proof (reachable_step _ _ (reachable_init 0)
                (step_webhook (init 0) 1 None tx1 _ _ _ eq_refl)) as H1.
  pose proof (reachable_step _ _ H1 (step_tick _ 30 ltac:(lia))) as H2.
  exact H2.
Qed.

(** ** Sanity checks on concrete inputs *)

Example accept_fresh_example :
  receive_webhook 1 None 0 tx1 [] = (Accepted "accepted", [webhook_row 1 0 tx1], ["tx-1"]).
Proof. reflexivity. Qed.

Example lookup_after_accept_example :
  get_transaction [webhook_row 1 0 tx1] "tx-1" = inr [webhook_row 1 0 tx1].
Proof. reflexivity. Qed.

Example settle_example :
  process_transaction None 30 "tx-1" [webhook_row 1 0 tx1] =
    (None, [mark_processed 30 (webhook_row 1 0 tx1)]).
Proof. reflexivity. Qed.

(** ** Claims *)

(** C1 (idempotent ingestion): two requests carrying the same
    [transaction_id], for an id not yet stored and with no storage failure,
    both return ["accepted"]; the first inserts and schedules exactly one
    settlement task, the second schedules none; the table ends with exactly
    one row for that id. Concurrent requests are serialised by the unique
    index of the table, so each order is an instance of this sequence. *)
Theorem accept_twice_one_record (u1 u2 now1 now2 : Z)
    (p1 p2 : Schemas.TransactionCreate) (db0 : table) :
  Schemas.transaction_id p2 = Schemas.transaction_id p1 ->
  Schemas.transaction_id p1 ∉ transaction_id <$> db0 ->
  Forall (fun r => id r <> u1) db0 ->
  let '(resp1, db1, ts1) := receive_webhook u1 None now1 p1 db0 in
  let '(resp2, db2, ts2) := receive_webhook u2 None now2 p2 db1 in
  resp1 = Accepted "accepted" /\ resp2 = Accepted "accepted" /\
  ts1 = [Schemas.transaction_id p1] /\ ts2 = [] /\
  db2 = db0 ++ [webhook_row u1 now1 p1] /\
  length (filter (fun r => transaction_id r = Schemas.transaction_id p1) db2) = 1%nat.
Proof.
  intros Htid Hfresh Hids.
  assert (Hnot : Forall (fun r => transaction_id r <> Schemas.transaction_id p1) db0).
  { apply Forall_forall. intros r Hr Heq. apply Hfresh.
    rewrite <- Heq. by apply list_elem_of_fmap_2. }
  rewrite receive_webhook_fresh by done.
  rewrite (receive_webhook_duplicate u2 now2 p2 _ (webhook_row u1 now1 p1)).
  - split_and!; try done.
    rewrite filter_app, filter_none by done.
    rewrite filter_cons_True by done. done.
  - apply elem_of_app. right. by apply list_elem_of_singleton.
  - simpl. done.
Qed.

Lemma accept_twice_one_record_witness :
  ("tx-1" ∉ transaction_id <$> ([] : table)) /\
  Forall (fun r => id r <> 1) ([] : table) /\
  (let '(resp1, db1, ts1) := receive_webhook 1 None 0 tx1 [] in
   let '(resp2, db2, ts2) := receive_webhook 2 None 5 tx1_retry db1 in
   resp1 = Accepted "accepted" /\ resp2 = Accepted "accepted" /\
   ts1 = ["tx-1"] /\ ts2 = [] /\
   db2 = [] ++ [webhook_row 1 0 tx1] /\
   length (filter (fun r => transaction_id r = "tx-1") db2) = 1%nat).
Proof.
  split; [apply not_elem_of_nil|]. split; [constructor|].
  exact (accept_twice_one_record 1 2 0 5 tx1 tx1_retry [] eq_refl
           (not_elem_of_nil _) (Forall_nil_2 _)).
Defined.

(** C2 (unknown lookup), as the code behaves: for a [transaction_id] with
    no stored row, [get_transaction] does not produce a not-found result:
    [HTTPException] is not imported in [routes.py], so [raise
    HTTPException(status_code=404, ...)] raises [NameError] and the caller
    receives a 500 internal server error instead of 404. The handler only
    reads the table (it returns no new table). *)
Theorem lookup_unknown_raises_NameError (db : table) (tid : string) :
  tid ∉ transaction_id <$> db ->
  get_transaction db tid = inl (NameError "HTTPException") /\
  fastapi_reply (get_transaction db tid) = ReplyError 500 "Internal Server Error".
Proof.
  intros Hnot.
  assert (Hq : query_first db tid = None).
  { destruct (query_first db tid) as [r|] eqn:E; [|done].
    apply query_first_Some in E as [Hr <-].
    exfalso. apply Hnot. by apply list_elem_of_fmap_2. }
  unfold get_transaction. rewrite Hq. split; reflexivity.
Qed.

Lemma lookup_unknown_raises_NameError_witness :
  ("tx-unknown" ∉ transaction_id <$> [webhook_row 1 0 tx1]) /\
  get_transaction [webhook_row 1 0 tx1] "tx-unknown" = inl (NameError "HTTPException") /\
  fastapi_reply (get_transaction [webhook_row 1 0 tx1] "tx-unknown") =
    ReplyError 500 "Internal Server Error".
Proof.
  assert (H : "tx-unknown" ∉ transaction_id <$> [webhook_row 1 0 tx1])
    by (simpl; rewrite list_elem_of_singleton; discriminate).
  split; [exact H|].
  exact (lookup_unknown_raises_NameError [webhook_row 1 0 tx1] "tx-unknown" H).
Defined.

(** C3 (eventual settlement): in a reachable state, once the settlement
    task of a transaction has slept its delay and its body runs with no
    storage failure, every later lookup of that [transaction_id] returns
    the row with [status = "PROCESSED"] and a [processed_at] that is set
    and not earlier than [created_at]. *)
Theorem settled_lookup_processed st pre tid due post err db' st'' :
  reachable st ->
  pending st = pre ++ (tid, due) :: post ->
  due <= clock st ->
  process_transaction None (clock st) tid (store st) = (err, db') ->
  rtc step (mkSys db' (pre ++ post) (clock st)) st'' ->
  exists r, get_transaction (store st'') tid = inr [r] /\
    status r = "PROCESSED" /\
    exists t, processed_at r = Some t /\ created_at r <= t.
Proof.
  intros Hreach Hpend Hdue Hp Hsteps.
  pose proof (reachable_inv st Hreach) as (Hrows & Hnodup & Htasks).
  assert (Hin : tid ∈ transaction_id <$> store st).
  { rewrite Hpend, Forall_app, Forall_cons in Htasks. apply Htasks. }
  assert (Hstep : step st (mkSys db' (pre ++ post) (clock st))).
  { eapply step_settle; eauto. }
  assert (Hsettled : settled db' tid).
  { eapply process_transaction_settles; eauto. by rewrite Hp. }
  pose proof (steps_settled (mkSys db' (pre ++ post) (clock st)) st'' tid Hsettled Hsteps) as Hsettled''.
  destruct Hsettled'' as [Hin'' Hall''].
  pose proof (reachable_inv st'' (steps_reachable _ _
                (reachable_step _ _ Hreach Hstep) Hsteps)) as (Hrows'' & _ & _).
  destruct (query_first_exists _ _ Hin'') as [r Hq].
  pose proof (query_first_Some _ _ _ Hq) as [Hr Hrtid].
  rewrite Forall_forall in Hall'', Hrows''.
  exists r. unfold get_transaction. rewrite Hq. split; [done|].
  specialize (Hall'' r Hr Hrtid). split; [done|].
  destruct (Hrows'' r Hr) as [_ [[Hst _] | [_ Hpt]]]; [|done].
  rewrite Hall'' in Hst. discriminate.
Qed.

(** C4 (no premature settlement): when a request newly stores its
    [transaction_id], a lookup of that id right after it returns the new
    row with [status = "PROCESSING"] and [processed_at = None]. *)
Theorem accept_then_lookup_processing new_id fault now payload db0 resp db1 ts :
  receive_webhook new_id fault now payload db0 = (resp, db1, ts) ->
  Schemas.transaction_id payload ∉ transaction_id <$> db0 ->
  Schemas.transaction_id payload ∈ transaction_id <$> db1 ->
  exists r, get_transaction db1 (Schemas.transaction_id payload) = inr [r] /\
    status r = "PROCESSING" /\ processed_at r = None.
Proof.
  intros Hw Hnot Hin.
  destruct (query_first_exists _ _ Hin) as [r Hq].
  exists r. unfold get_transaction. rewrite Hq. split; [done|].
  apply query_first_Some in Hq as [Hr Hrtid].
  apply receive_webhook_cases in Hw
    as [(-> & _ & _) | (_ & _ & _ & -> & _ & _)]; [done|].
  apply elem_of_app in Hr as [Hr | Hr].
  - exfalso. apply Hnot. rewrite <- Hrtid. by apply list_elem_of_fmap_2.
  - apply list_elem_of_singleton in Hr as ->. simpl. auto.
Qed.

Lemma settled_lookup_processed_witness :
  reachable st_waited /\
  exists r, get_transaction [mark_processed 30 (webhook_row 1 0 tx1)] "tx-1" = inr [r] /\
    status r = "PROCESSED" /\
    exists t, processed_at r = Some t /\ created_at r <= t.
Proof.
  split; [exact st_waited_reachable|].
  exact (settled_lookup_processed st_waited [] "tx-1" 30 [] None
           [mark_processed 30 (webhook_row 1 0 tx1)]
           (mkSys [mark_processed 30 (webhook_row 1 0 tx1)] [] 30)
           st_waited_reachable eq_refl (Z.le_refl 30) eq_refl (rtc_refl _ _)).
Defined.

Lemma accept_then_lookup_processing_witness :
  receive_webhook 1 None 0 tx1 [] = (Accepted "accepted", [webhook_row 1 0 tx1], ["tx-1"]) /\
  exists r, get_transaction [webhook_row 1 0 tx1] "tx-1" = inr [r] /\
    status r = "PROCESSING" /\ processed_at r = None.
Proof.
  split; [reflexivity|].
  apply (accept_then_lookup_processing 1 None 0 tx1 [] (Accepted "accepted")
           [webhook_row 1 0 tx1] ["tx-1"] eq_refl).
  - apply not_elem_of_nil.
  - simpl. by apply list_elem_of_singleton.
Defined.

(** C5, as the code does it: the handler catches [IntegrityError], the
    class of every constraint violation. Any constraint violation of the
    insert (the unique [transaction_id] or the primary key on the generated
    [id]) is acknowledged with ["accepted"], leaving the table as it was;
    every other storage failure escapes as an internal server error; a
    settlement task is scheduled exactly when the row was stored. *)
Theorem accept_failure_handling new_id fault now payload db resp db' ts :
  receive_webhook new_id fault now payload db = (resp, db', ts) ->
  (forall f, fault = Some f ->
     resp = InternalServerError (OtherDBError f) /\ db' = db /\ ts = []) /\
  (fault = None -> resp = Accepted "accepted") /\
  (fault = None ->
     (exists r, r ∈ db /\ (id r = new_id \/ transaction_id r = Schemas.transaction_id payload)) ->
     db' = db /\ ts = []) /\
  (ts = [] -> db' = db) /\
  (ts <> [] ->
     ts = [Schemas.transaction_id payload] /\ db' = db ++ [webhook_row new_id now payload]).
Proof.
  intros Hw. split_and!.
  - intros f ->. revert Hw. unfold receive_webhook. simpl.
    intros Heq. injection Heq as <- <- <-. auto.
  - intros ->. apply receive_webhook_cases in Hw
      as [(_ & _ & [? | (f & ? & _)]) | (_ & ? & _)]; done.
  - intros -> (r & Hr & Hclash).
    apply receive_webhook_cases in Hw
      as [(-> & -> & _) | (_ & _ & _ & _ & Hids & Htids)]; [done|].
    rewrite Forall_forall in Hids, Htids. exfalso.
    destruct Hclash; [by apply (Hids r) | by apply (Htids r)].
  - intros ->. apply receive_webhook_cases in Hw
      as [(-> & _ & _) | (_ & _ & ? & _)]; done.
  - intros Hts. apply receive_webhook_cases in Hw
      as [(_ & -> & _) | (_ & _ & -> & -> & _)]; done.
Qed.

Lemma accept_failure_handling_witness :
  receive_webhook 1 (Some OperationalError) 0 tx1 [] =
    (InternalServerError (OtherDBError OperationalError), [], []) /\
  InternalServerError (OtherDBError OperationalError) =
    InternalServerError (OtherDBError OperationalError) /\ ([] : table) = [] /\ ([] : list string) = [].
Proof.
  split; [reflexivity|].
  exact (proj1 (accept_failure_handling 1 (Some OperationalError) 0 tx1 []
                  _ [] [] eq_refl) OperationalError eq_refl).
Defined.

(** C5 fails as stated: a violation of a constraint other than the unique
    [transaction_id] (here the primary key, for a new [transaction_id]) is
    recovered silently as well: acknowledged, no error, nothing stored. *)
Lemma accept_recovers_pkey_violation :
  insert_commit None (webhook_row 7 5 tx2) [webhook_row 7 0 tx1] =
    inl (IntegrityError transactions_pkey) /\
  ("tx-2" ∉ transaction_id <$> [webhook_row 7 0 tx1]) /\
  receive_webhook 7 None 5 tx2 [webhook_row 7 0 tx1] =
    (Accepted "accepted", [webhook_row 7 0 tx1], []).
Proof.
  split; [reflexivity|]. split; [|reflexivity].
  simpl. rewrite list_elem_of_singleton. discriminate.
Qed.

(** C6, as the code does it: re-running the worker's update (with no
    storage failure) raises no error, and its end state is the one a
    single run at the new time gives: [status] stays ["PROCESSED"], every
    other column is kept, and [processed_at] is overwritten with the new
    time. Only a re-run at the same time gives the same end state. *)
Theorem settle_again_overwrites (t1 t2 : Z) (tid : string) (db : table) :
  process_transaction None t2 tid (snd (process_transaction None t1 tid db)) =
    (None, snd (process_transaction None t2 tid db)).
Proof.
  unfold process_transaction at 2 3.
  destruct (list_find (fun r => transaction_id r = tid) db) as [[i txn]|] eqn:Hfind;
    simpl.
  - unfold process_transaction.
    rewrite (list_find_insert_same _ db i txn (mark_processed t1 txn) Hfind)
      by (apply list_find_Some in Hfind as (_ & Htid & _); exact Htid).
    rewrite list_insert_insert_eq. done.
  - unfold process_transaction. rewrite Hfind. done.
Qed.

(** C6 fails as stated: the second run, 10 seconds later, moves
    [processed_at] from 40 to 50, so the end state differs from the one
    after the first run. *)
Lemma settle_twice_moves_processed_at :
  snd (process_transaction None 40 "tx-1" [webhook_row 1 0 tx1]) =
    [mark_processed 40 (webhook_row 1 0 tx1)] /\
  process_transaction None 50 "tx-1" [mark_processed 40 (webhook_row 1 0 tx1)] =
    (None, [mark_processed 50 (webhook_row 1 0 tx1)]) /\
  [mark_processed 50 (webhook_row 1 0 tx1)] <> [mark_processed 40 (webhook_row 1 0 tx1)].
Proof.
  split; [reflexivity|]. split; [reflexivity|]. discriminate.
Qed.

(** C7 (settlement skip on missing record): when no row has the task's
    [transaction_id], the task raises nothing and leaves the table as it
    was, whatever the state of the storage. *)
Theorem settle_missing_record_noop fault now tid db :
  tid ∉ transaction_id <$> db ->
  process_transaction fault now tid db = (None, db).
Proof.
  intros Hnot. unfold process_transaction.
  assert (Hnone : list_find (fun r => transaction_id r = tid) db = None).
  { apply list_find_None, Forall_forall. intros r Hr Htid.
    apply Hnot. rewrite <- Htid. by apply list_elem_of_fmap_2. }
  by rewrite Hnone.
Qed.

Lemma settle_missing_record_noop_witness :
  ("tx-2" ∉ transaction_id <$> [webhook_row 1 0 tx1]) /\
  process_transaction None 30 "tx-2" [webhook_row 1 0 tx1] = (None, [webhook_row 1 0 tx1]).
Proof.
  assert (H : "tx-2" ∉ transaction_id <$> [webhook_row 1 0 tx1])
    by (simpl; rewrite list_elem_of_singleton; discriminate).
  split; [exact H|].
  exact (settle_missing_record_noop None 30 "tx-2" [webhook_row 1 0 tx1] H).
Defined.

(** C8 (closed, monotonic status): in every reachable state each row's
    [status] is ["PROCESSING"] or ["PROCESSED"], and no step turns a
    ["PROCESSED"] row back: the row stays at its place with the same [id]
    and [transaction_id] and is still ["PROCESSED"]. *)
Theorem status_closed_and_monotone st :
  reachable st ->
  Forall (fun r => status r = "PROCESSING" \/ status r = "PROCESSED") (store st) /\
  (forall st' i r, step st st' -> store st !! i = Some r -> status r = "PROCESSED" ->
     exists r', store st' !! i = Some r' /\ id r' = id r /\
                transaction_id r' = transaction_id r /\ status r' = "PROCESSED").
Proof.
  intros Hreach. split.
  - destruct (reachable_inv st Hreach) as (Hrows & _ & _).
    eapply Forall_impl; [exact Hrows|].
    intros r (_ & [[? _] | [? _]]); auto.
  - intros st' i r Hstep Hi Hst. eapply step_keeps_processed; eauto.
Qed.

Lemma status_closed_and_monotone_witness :
  reachable st_waited /\
  Forall (fun r => status r = "PROCESSING" \/ status r = "PROCESSED") (store st_waited).
Proof.
  split; [exact st_waited_reachable|].
  exact (proj1 (status_closed_and_monotone st_waited st_waited_reachable)).
Defined.

(** C9 (frame of the settlement task): the task keeps the number of rows
    (it deletes nothing), changes at most one row, leaves every row of
    another [transaction_id] as it was, and in every row keeps [id],
    [transaction_id], [source_account], [destination_account], [amount],
    [currency] and [created_at]. *)
Theorem settle_frame fault now tid db err db' :
  process_transaction fault now tid db = (err, db') ->
  length db' = length db /\
  (forall i r r', db !! i = Some r -> db' !! i = Some r' ->
     id r' = id r /\ transaction_id r' = transaction_id r /\
     source_account r' = source_account r /\
     destination_account r' = destination_account r /\
     amount r' = amount r /\ currency r' = currency r /\
     created_at r' = created_at r) /\
  (forall i r, db !! i = Some r -> transaction_id r <> tid -> db' !! i = Some r) /\
  (forall i j, db !! i <> db' !! i -> db !! j <> db' !! j -> i = j).
Proof.
  intros Hp.
  apply process_transaction_cases in Hp as [-> | (_ & _ & k & txn & Hfind & ->)].
  - split_and!; [done | | done | done].
    intros i r r' Hi Hi'. rewrite Hi in Hi'. injection Hi' as <-. auto 10.
  - apply list_find_Some in Hfind as (Hk & Htid & _).
    split_and!.
    + apply length_insert.
    + intros i r r' Hi Hi'.
      apply list_lookup_insert_Some in Hi' as [(-> & <- & _) | (_ & Hi')].
      * rewrite Hk in Hi. injection Hi as <-. simpl. auto 10.
      * rewrite Hi in Hi'. injection Hi' as <-. auto 10.
    + intros i r Hi Hne. destruct (decide (k = i)) as [<-|Hki].
      * rewrite Hk in Hi. injection Hi as <-. contradiction.
      * by rewrite list_lookup_insert_ne.
    + intros i j Hi Hj.
      destruct (decide (k = i)) as [<-|Hki];
        [|by rewrite list_lookup_insert_ne in Hi].
      destruct (decide (k = j)) as [<-|Hkj];
        [done|by rewrite list_lookup_insert_ne in Hj].
Qed.

Lemma settle_frame_witness :
  process_transaction None 30 "tx-1" [webhook_row 1 0 tx1; webhook_row 2 0 tx2] =
    (None, [mark_processed 30 (webhook_row 1 0 tx1); webhook_row 2 0 tx2]) /\
  length [mark_processed 30 (webhook_row 1 0 tx1); webhook_row 2 0 tx2] =
    length [webhook_row 1 0 tx1; webhook_row 2 0 tx2].
Proof.
  split; [reflexivity|].
  exact (proj1 (settle_frame None 30 "tx-1" [webhook_row 1 0 tx1; webhook_row 2 0 tx2]
                  None _ eq_refl)).
Defined.

(** C10 (conflicting duplicate): a request whose [transaction_id] is
    already stored, whatever its other fields, is acknowledged with
    ["accepted"] (with no storage failure), stores nothing, schedules
    nothing: the stored row keeps the first request's values. *)
Theorem duplicate_payload_discarded new_id now payload db r0 :
  r0 ∈ db -> transaction_id r0 = Schemas.transaction_id payload ->
  receive_webhook new_id None now payload db = (Accepted "accepted", db, []).
Proof. apply receive_webhook_duplicate. Qed.

Lemma duplicate_payload_discarded_witness :
  receive_webhook 2 None 5 tx1_retry [webhook_row 1 0 tx1] =
    (Accepted "accepted", [webhook_row 1 0 tx1], []).
Proof.
  apply (duplicate_payload_discarded 2 5 tx1_retry [webhook_row 1 0 tx1]
           (webhook_row 1 0 tx1)).
  - by apply list_elem_of_singleton.
  - reflexivity.
Defined.

(** ** Further properties of the code *)

Lemma NoDup_remove_mid {A} (l1 l2 : list A) x :
  NoDup (l1 ++ x :: l2) -> NoDup (l1 ++ l2) /\ x ∉ l1 ++ l2.
Proof.
  rewrite !NoDup_app, NoDup_cons. intros (H1 & H2 & Hx & H3). split.
  - split_and!; [done| |done]. intros y Hy Hy2. apply (H2 y Hy).
    apply elem_of_cons. by right.
  - rewrite elem_of_app. intros [Hin|Hin]; [|done].
    apply (H2 x Hin). apply elem_of_cons. by left.
Qed.

Lemma step_inv2 st st' : sys_inv st -> sys_inv2 st -> step st st' -> sys_inv2 st'.
Proof.
  intros (Hrows & Hnodup & Htasks) (Hids & Hnd & Hpend & Hproc) Hstep.
  destruct Hstep as [st new_id fault payload resp db' ts Hw
                    | st d Hd
                    | st pre tid due post fault err db' Hpeq Hdue Hp];
    unfold sys_inv2; simpl.
  - apply receive_webhook_cases in Hw
      as [(-> & -> & _) | (-> & -> & -> & -> & Hfid & Hftid)].
    + rewrite fmap_nil, app_nil_r. auto.
    + set (row := webhook_row new_id (clock st) payload).
      assert (Hfresh : Schemas.transaction_id payload ∉ transaction_id <$> store st).
      { intros (r & Hr & Hin)%list_elem_of_fmap. rewrite Forall_forall in Hftid.
        by apply (Hftid r). }
      rewrite !fmap_app. simpl. split_and!.
      * apply NoDup_app. split_and!; [done| |apply NoDup_singleton].
        intros x Hx ->%list_elem_of_singleton.
        apply list_elem_of_fmap in Hx as (r & Hr & Hin).
        rewrite Forall_forall in Hfid. by apply (Hfid r).
      * apply NoDup_app. split_and!; [done| |apply NoDup_singleton].
        intros x Hx ->%list_elem_of_singleton. apply Hfresh.
        apply list_elem_of_fmap in Hx as ([tid due] & -> & Hin).
        rewrite Forall_forall in Htasks. exact (Htasks _ Hin).
      * apply Forall_app. split.
        -- apply Forall_forall. intros [tid due] Hin.
           rewrite Forall_forall in Hpend, Htasks.
           apply Forall_app. split; [exact (Hpend _ Hin)|].
           constructor; [|constructor]. simpl. intros Heq. exfalso.
           apply Hfresh. rewrite Heq. exact (Htasks _ Hin).
        -- constructor; [|constructor]. simpl.
           apply Forall_app. split.
           ++ apply Forall_forall. intros r Hr Heq. exfalso. apply Hfresh.
              rewrite <- Heq. by apply list_elem_of_fmap_2.
           ++ constructor; [|constructor]. simpl. intros _. split; [done|].
              unfold settlement_delay. lia.
      * apply Forall_app. split; [done|]. constructor; [|constructor].
        simpl. discriminate.
  - auto.
  - rewrite Hpeq in Hnd, Hpend, Htasks.
    rewrite fmap_app, fmap_cons in Hnd.
    apply NoDup_remove_mid in Hnd as [Hnd' Hnotin]. rewrite <- fmap_app in Hnd', Hnotin.
    simpl in Hnotin.
    apply Forall_app in Hpend as [Hpre Hpost']. apply Forall_cons in Hpost' as [Hme Hpost].
    apply process_transaction_cases in Hp as [-> | (_ & _ & k & txn & Hfind & ->)].
    + split_and!; auto. apply Forall_app; auto.
    + apply list_find_Some in Hfind as (Hk & Htid & _).
      assert (Hother : forall task, task ∈ pre ++ post -> fst task <> tid).
      { intros task Htask Heq. apply Hnotin. rewrite <- Heq.
        by apply list_elem_of_fmap_2. }
      split_and!.
      * rewrite list_fmap_insert. simpl.
        rewrite list_insert_id; [done|]. by rewrite list_lookup_fmap, Hk.
      * done.
      * apply Forall_forall. intros task Htask.
        assert (Hold : Forall (fun r => transaction_id r = fst task ->
                  status r = "PROCESSING" /\ created_at r + settlement_delay = snd task)
                  (store st)).
        { apply elem_of_app in Htask as [Htask|Htask];
            [rewrite Forall_forall in Hpre | rewrite Forall_forall in Hpost]; auto. }
        apply Forall_insert; [done|]. simpl. intros Heq.
        exfalso. apply (Hother task Htask). by rewrite <- Heq.
      * apply Forall_insert; [done|]. simpl. intros _.
        exists (clock st). split; [done|].
        rewrite Forall_forall in Hme.
        destruct (Hme txn) as [_ Hdelay]; [eapply list_elem_of_lookup_2; eauto|done|].
        simpl in Hdelay. lia.
Qed.

Lemma reachable_inv2 st : reachable st -> sys_inv2 st.
Proof.
  induction 1 as [t0 | st st' Hr IH Hstep].
  - unfold sys_inv2, init. simpl. split_and!; constructor.
  - eapply step_inv2; eauto using reachable_inv.
Qed.

Lemma NoDup_fmap_same_key {B} (f : Transaction -> B) (l : table) r1 r2 :
  NoDup (f <$> l) -> r1 ∈ l -> r2 ∈ l -> f r1 = f r2 -> r1 = r2.
Proof.
  intros Hnd (i & Hi)%list_elem_of_lookup (j & Hj)%list_elem_of_lookup Heq.
  assert (i = j) as <-.
  { apply (NoDup_lookup _ _ _ (f r1) Hnd).
    - by rewrite list_lookup_fmap, Hi.
    - by rewrite list_lookup_fmap, Hj, Heq. }
  rewrite Hi in Hj. by injection Hj.
Qed.

(** [list_find] is not affected by overwriting a non-matching row with
    another non-matching row. *)
Lemma list_find_insert_other (P : Transaction -> Prop) `{forall x, Decision (P x)}
    (l : table) k x y :
  l !! k = Some x -> ~ P x -> ~ P y -> list_find P (<[k := y]> l) = list_find P l.
Proof.
  revert k. induction l as [|a l IH]; intros k Hk Hx Hy; [done|].
  destruct k as [|k]; simpl in *.
  - injection Hk as ->. by rewrite !decide_False.
  - destruct (decide (P a)); [done|]. by rewrite (IH k).
Qed.

Lemma query_first_app_other (db : table) r tid :
  transaction_id r <> tid -> query_first (db ++ [r]) tid = query_first db tid.
Proof.
  intros Hne. unfold query_first.
  destruct (list_find (fun x => transaction_id x = tid) db) as [[i x]|] eqn:E.
  - by rewrite (list_find_app_l _ _ _ i x E).
  - rewrite list_find_app_r by done. simpl. by rewrite decide_False.
Qed.


Lemma step_stuck st st' tid : stuck st tid -> step st st' -> stuck st' tid.
Proof.
  intros (Hin & Hnot & Hall) Hstep.
  destruct Hstep as [st new_id fault payload resp db' ts Hw
                    | st d Hd
                    | st pre tid' due post fault err db' Hpeq Hdue Hp];
    unfold stuck; simpl.
  - apply receive_webhook_cases in Hw
      as [(-> & -> & _) | (_ & _ & -> & -> & _ & Hftid)].
    + rewrite fmap_nil, app_nil_r. auto.
    + assert (Hne : Schemas.transaction_id payload <> tid).
      { intros Heq. apply list_elem_of_fmap in Hin as (r & -> & Hr).
        rewrite Forall_forall in Hftid. by apply (Hftid r). }
      rewrite !fmap_app. simpl. split_and!.
      * apply elem_of_app. by left.
      * rewrite not_elem_of_app, not_elem_of_cons. split_and!; auto.
        apply not_elem_of_nil.
      * apply Forall_app. split; [done|]. constructor; [|constructor].
        simpl. intros Heq. congruence.
  - auto.
  - rewrite (process_transaction_ids' _ _ _ _ _ _ Hp).
    rewrite Hpeq, fmap_app, fmap_cons in Hnot. simpl in Hnot.
    rewrite not_elem_of_app, not_elem_of_cons in Hnot.
    destruct Hnot as (Hpre & Hne & Hpost).
    split_and!; [done| rewrite fmap_app, not_elem_of_app; auto |].
    apply process_transaction_cases in Hp as [-> | (_ & _ & k & txn & Hfind & ->)];
      [done|].
    apply list_find_Some in Hfind as (_ & Htid & _).
    apply Forall_insert; [done|]. simpl. intros Heq. congruence.
Qed.

Lemma steps_stuck st st' tid : stuck st tid -> rtc step st st' -> stuck st' tid.
Proof. intros H Hs. induction Hs; eauto using step_stuck. Qed.

Lemma st_done_reachable : reachable st_done.
Proof.
  exact (reachable_step _ _ st_waited_reachable
           (step_settle st_waited [] "tx-1" 30 [] None None
              [mark_processed 30 (webhook_row 1 0 tx1)] eq_refl (Z.le_refl 30) eq_refl)).
Qed.

(** X1: in every reachable state, a lookup of [tid] returns the one-row
    body [[r]] exactly when [r] is a stored row with that id. *)
Theorem lookup_returns_stored_row st tid r :
  reachable st ->
  get_transaction (store st) tid = inr [r] <-> r ∈ store st /\ transaction_id r = tid.
Proof.
  intros Hreach. destruct (reachable_inv st Hreach) as (_ & Hnodup & _).
  unfold get_transaction. split.
  - destruct (query_first (store st) tid) as [r0|] eqn:Hq; [|discriminate].
    intros Heq. injection Heq as ->. by apply query_first_Some.
  - intros [Hr Htid].
    assert (Hin : tid ∈ transaction_id <$> store st)
      by (rewrite <- Htid; by apply list_elem_of_fmap_2).
    destruct (query_first_exists _ _ Hin) as [r0 Hq]. rewrite Hq.
    apply query_first_Some in Hq as [Hr0 Htid0].
    rewrite (NoDup_fmap_same_key transaction_id (store st) r0 r Hnodup Hr0 Hr)
      by congruence.
    done.
Qed.

Lemma lookup_returns_stored_row_witness :
  reachable st_done /\
  (get_transaction (store st_done) "tx-1" = inr [mark_processed 30 (webhook_row 1 0 tx1)] <->
   mark_processed 30 (webhook_row 1 0 tx1) ∈ store st_done /\
   transaction_id (mark_processed 30 (webhook_row 1 0 tx1)) = "tx-1").
Proof.
  split; [exact st_done_reachable|].
  exact (lookup_returns_stored_row st_done "tx-1" _ st_done_reachable).
Defined.



(** X3: no step deletes or moves a row, and every step keeps, in every
    row, its [id], [transaction_id], accounts, [amount], [currency] and
    [created_at]: only [status] and [processed_at] ever change. *)
Theorem step_keeps_row_columns st st' i r :
  step st st' -> store st !! i = Some r ->
  exists r', store st' !! i = Some r' /\
    id r' = id r /\ transaction_id r' = transaction_id r /\
    source_account r' = source_account r /\
    destination_account r' = destination_account r /\
    amount r' = amount r /\ currency r' = currency r /\
    created_at r' = created_at r.
Proof.
  intros Hstep Hi.
  destruct Hstep as [st new_id fault payload resp db' ts Hw
                    | st d Hd
                    | st pre tid due post fault err db' Hpend Hdue Hp]; simpl.
  - apply receive_webhook_cases in Hw
      as [(-> & _ & _) | (_ & _ & _ & -> & _ & _)].
    + exists r. auto 10.
    + exists r. split; [by apply lookup_app_l_Some | auto 10].
  - exists r. auto 10.
  - apply process_transaction_cases in Hp as [-> | (_ & _ & k & txn & Hfind & ->)].
    + exists r. auto 10.
    + apply list_find_Some in Hfind as (Hk & _ & _).
      destruct (decide (k = i)) as [<-|Hne].
      * rewrite Hk in Hi. injection Hi as <-.
        exists (mark_processed (clock st) txn).
        rewrite list_lookup_insert_eq by (eapply lookup_lt_Some; eauto).
        simpl. auto 10.
      * exists r. rewrite list_lookup_insert_ne by done. auto 10.
Qed.

Lemma step_keeps_row_columns_witness :
  step st_waited st_done /\
  exists r', store st_done !! 0%nat = Some r' /\
    id r' = 1 /\ transaction_id r' = "tx-1" /\
    source_account r' = "A" /\ destination_account r' = "B" /\
    amount r' = 1000 /\ currency r' = "USD" /\ created_at r' = 0.
Proof.
  assert (H : step st_waited st_done).
  { exact (step_settle st_waited [] "tx-1" 30 [] None None
             [mark_processed 30 (webhook_row 1 0 tx1)] eq_refl (Z.le_refl 30) eq_refl). }
  split; [exact H|].
  exact (step_keeps_row_columns st_waited st_done 0 (webhook_row 1 0 tx1) H eq_refl).
Defined.

(** X4: in every reachable state no two rows share a [transaction_id]. *)
Theorem reachable_transaction_ids_unique st :
  reachable st -> NoDup (transaction_id <$> store st).
Proof. intros Hr. apply (reachable_inv st Hr). Qed.

Lemma reachable_transaction_ids_unique_witness :
  reachable st_done /\ NoDup (transaction_id <$> store st_done).
Proof.
  split; [exact st_done_reachable|].
  exact (reachable_transaction_ids_unique st_done st_done_reachable).
Defined.

(** X5: in every reachable state no two rows share an [id]: an insert whose
    generated id is already stored is refused by the primary key. *)
Theorem reachable_ids_unique st :
  reachable st -> NoDup (id <$> store st).
Proof. intros Hr. apply (reachable_inv2 st Hr). Qed.

Lemma reachable_ids_unique_witness :
  reachable st_done /\ NoDup (id <$> store st_done).
Proof.
  split; [exact st_done_reachable|].
  exact (reachable_ids_unique st_done st_done_reachable).
Defined.



(** X7: in every reachable state a ["PROCESSED"] row has a [processed_at]
    at least [settlement_delay] (30 s) after its [created_at]: no row is
    settled before the sleep of its task is over. *)
Theorem processed_after_delay st r :
  reachable st -> r ∈ store st -> status r = "PROCESSED" ->
  exists t, processed_at r = Some t /\ created_at r + settlement_delay <= t.
Proof.
  intros Hreach Hr Hst.
  destruct (reachable_inv2 st Hreach) as (_ & _ & _ & Hproc).
  rewrite Forall_forall in Hproc. by apply Hproc.
Qed.

Lemma processed_after_delay_witness :
  reachable st_done /\
  exists t, processed_at (mark_processed 30 (webhook_row 1 0 tx1)) = Some t /\
    created_at (mark_processed 30 (webhook_row 1 0 tx1)) + settlement_delay <= t.
Proof.
  split; [exact st_done_reachable|].
  apply (processed_after_delay st_done _ st_done_reachable).
  - simpl. by apply list_elem_of_singleton.
  - reflexivity.
Defined.

(** X8: in every reachable state, once a row has a [processed_at], no
    step changes it or its [status]: the settlement time is written once. *)
Theorem processed_at_written_once st st' i r t :
  reachable st -> step st st' ->
  store st !! i = Some r -> processed_at r = Some t ->
  exists r', store st' !! i = Some r' /\ processed_at r' = Some t /\ status r' = status r.
Proof.
  intros Hreach Hstep Hi Ht.
  destruct (reachable_inv st Hreach) as (Hrows & _ & _).
  destruct (reachable_inv2 st Hreach) as (_ & _ & Hpend & _).
  destruct Hstep as [st new_id fault payload resp db' ts Hw
                    | st d Hd
                    | st pre tid due post fault err db' Hpeq Hdue Hp]; simpl.
  - apply receive_webhook_cases in Hw
      as [(-> & _ & _) | (_ & _ & _ & -> & _ & _)]; [eauto|].
    exists r. split; [by apply lookup_app_l_Some | auto].
  - eauto.
  - apply process_transaction_cases in Hp as [-> | (_ & _ & k & txn & Hfind & ->)];
      [eauto|].
    apply list_find_Some in Hfind as (Hk & Htid & _).
    destruct (decide (k = i)) as [<-|Hne].
    + exfalso. rewrite Hk in Hi. injection Hi as <-.
      rewrite Hpeq, Forall_app, Forall_cons in Hpend.
      destruct Hpend as (_ & Hme & _). rewrite Forall_forall in Hme, Hrows.
      destruct (Hme txn) as [Hproc _]; [eapply list_elem_of_lookup_2; eauto|done|].
      destruct (Hrows txn) as [_ [[_ Hnone] | [Hst _]]];
        [eapply list_elem_of_lookup_2; eauto| congruence | congruence].
    + exists r. rewrite list_lookup_insert_ne by done. auto.
Qed.

Lemma processed_at_written_once_witness :
  reachable st_done /\ step st_done (mkSys (store st_done) (pending st_done) (clock st_done + 5)) /\
  exists r', store (mkSys (store st_done) (pending st_done) (clock st_done + 5)) !! 0%nat = Some r' /\
    processed_at r' = Some 30 /\
    status r' = status (mark_processed 30 (webhook_row 1 0 tx1)).
Proof.
  assert (H : step st_done (mkSys (store st_done) (pending st_done) (clock st_done + 5)))
    by (apply step_tick; lia).
  split; [exact st_done_reachable|]. split; [exact H|].
  exact (processed_at_written_once st_done _ 0 (mark_processed 30 (webhook_row 1 0 tx1)) 30
           st_done_reachable H eq_refl eq_refl).
Defined.

(** X9: the worker never retries: when the commit of a settlement task
    fails, its transaction stays stored and ["PROCESSING"] in every later
    state, since no other task for it is ever scheduled. *)
Theorem failed_settlement_never_retried st pre tid due post f err db' st'' :
  reachable st ->
  pending st = pre ++ (tid, due) :: post ->
  due <= clock st ->
  process_transaction (Some f) (clock st) tid (store st) = (err, db') ->
  rtc step (mkSys db' (pre ++ post) (clock st)) st'' ->
  tid ∈ transaction_id <$> store st'' /\
  Forall (fun r => transaction_id r = tid -> status r = "PROCESSING") (store st'').
Proof.
  intros Hreach Hpeq Hdue Hp Hsteps.
  destruct (reachable_inv st Hreach) as (_ & _ & Htasks).
  destruct (reachable_inv2 st Hreach) as (_ & Hnd & Hpend & _).
  assert (Hdb : db' = store st).
  { apply process_transaction_cases in Hp as [-> | (? & _)]; [done | discriminate]. }
  subst db'.
  rewrite Hpeq in Hnd, Hpend, Htasks.
  rewrite fmap_app, fmap_cons in Hnd.
  apply NoDup_remove_mid in Hnd as [_ Hnotin]. rewrite <- fmap_app in Hnotin.
  apply Forall_app in Htasks as [_ Htasks]. apply Forall_cons in Htasks as [Hin _].
  apply Forall_app in Hpend as [_ Hpend]. apply Forall_cons in Hpend as [Hme _].
  assert (Hstuck : stuck (mkSys (store st) (pre ++ post) (clock st)) tid).
  { unfold stuck. simpl. split_and!; [exact Hin | exact Hnotin |].
    eapply Forall_impl; [exact Hme|]. simpl. intros r Hr Htid. by apply Hr. }
  destruct (steps_stuck _ _ tid Hstuck Hsteps) as (Hin'' & _ & Hall'').
  auto.
Qed.

Lemma failed_settlement_never_retried_witness :
  reachable st_waited /\
  process_transaction (Some OperationalError) 30 "tx-1" [webhook_row 1 0 tx1] =
    (Some (OtherDBError OperationalError), [webhook_row 1 0 tx1]) /\
  ("tx-1" ∈ transaction_id <$> [webhook_row 1 0 tx1]) /\
  Forall (fun r => transaction_id r = "tx-1" -> status r = "PROCESSING")
    [webhook_row 1 0 tx1].
Proof.
  split; [exact st_waited_reachable|]. split; [reflexivity|].
  exact (failed_settlement_never_retried st_waited [] "tx-1" 30 [] OperationalError
           (Some (OtherDBError OperationalError)) [webhook_row 1 0 tx1]
           (mkSys [webhook_row 1 0 tx1] [] 30)
           st_waited_reachable eq_refl (Z.le_refl 30) eq_refl (rtc_refl _ _)).
Defined.

Lemma process_transaction_snd now tid db :
  snd (process_transaction None now tid db) =
    match list_find (fun r => transaction_id r = tid) db with
    | Some (k, txn) => <[k := mark_processed now txn]> db
    | None => db
    end.
Proof.
  unfold process_transaction.
  by destruct (list_find (fun r => transaction_id r = tid) db) as [[k txn]|].
Qed.

(** X10: settlement tasks of two different transactions commute: running
    them (with no storage failure) in either order gives the same table. *)
Theorem settlements_commute t1 t2 tid1 tid2 (db : table) :
  tid1 <> tid2 ->
  snd (process_transaction None t2 tid2 (snd (process_transaction None t1 tid1 db))) =
  snd (process_transaction None t1 tid1 (snd (process_transaction None t2 tid2 db))).
Proof.
  intros Hne. rewrite !process_transaction_snd.
  destruct (list_find (fun r => transaction_id r = tid1) db) as [[k1 x1]|] eqn:E1;
  destruct (list_find (fun r => transaction_id r = tid2) db) as [[k2 x2]|] eqn:E2.
  - apply list_find_Some in E1 as E1'. destruct E1' as (Hk1 & Ht1 & _).
    apply list_find_Some in E2 as E2'. destruct E2' as (Hk2 & Ht2 & _).
    rewrite (list_find_insert_other _ db k1 x1) by (simpl; congruence).
    rewrite (list_find_insert_other _ db k2 x2) by (simpl; congruence).
    rewrite ?E1, ?E2. apply list_insert_insert_ne.
    intros ->. rewrite Hk1 in Hk2. injection Hk2 as ->. congruence.
  - apply list_find_Some in E1 as E1'. destruct E1' as (Hk1 & Ht1 & _).
    rewrite (list_find_insert_other _ db k1 x1) by (simpl; congruence).
    by rewrite ?E1, ?E2.
  - apply list_find_Some in E2 as E2'. destruct E2' as (Hk2 & Ht2 & _).
    rewrite (list_find_insert_other _ db k2 x2) by (simpl; congruence).
    by rewrite ?E1, ?E2.
  - by rewrite E1.
Qed.

Lemma settlements_commute_witness :
  "tx-1" <> "tx-2" /\
  snd (process_transaction None 40 "tx-2"
         (snd (process_transaction None 30 "tx-1" [webhook_row 1 0 tx1; webhook_row 2 5 tx2]))) =
  snd (process_transaction None 30 "tx-1"
         (snd (process_transaction None 40 "tx-2" [webhook_row 1 0 tx1; webhook_row 2 5 tx2]))).
Proof.
  assert (H : "tx-1" <> "tx-2") by discriminate.
  split; [exact H|].
  exact (settlements_commute 30 40 "tx-1" "tx-2" _ H).
Defined.

(** X11: a webhook request never changes what a lookup of another
    [transaction_id] returns. *)
Theorem webhook_keeps_other_lookups new_id fault now payload db resp db' ts tid :
  receive_webhook new_id fault now payload db = (resp, db', ts) ->
  Schemas.transaction_id payload <> tid ->
  get_transaction db' tid = get_transaction db tid.
Proof.
  intros Hw Hne.
  apply receive_webhook_cases in Hw
    as [(-> & _ & _) | (_ & _ & _ & -> & _ & _)]; [done|].
  unfold get_transaction. by rewrite query_first_app_other.
Qed.

Lemma webhook_keeps_other_lookups_witness :
  receive_webhook 2 None 5 tx2 [webhook_row 1 0 tx1] =
    (Accepted "accepted", [webhook_row 1 0 tx1; webhook_row 2 5 tx2], ["tx-2"]) /\
  get_transaction [webhook_row 1 0 tx1; webhook_row 2 5 tx2] "tx-1" =
    get_transaction [webhook_row 1 0 tx1] "tx-1".
Proof.
  split; [reflexivity|].
  exact (webhook_keeps_other_lookups 2 None 5 tx2 [webhook_row 1 0 tx1] _ _ ["tx-2"] "tx-1"
           eq_refl ltac:(discriminate)).
Defined.

(** X12: a settlement task never changes what a lookup of another
    [transaction_id] returns. *)
Theorem settlement_keeps_other_lookups fault now tid db err db' tid' :
  process_transaction fault now tid db = (err, db') ->
  tid <> tid' ->
  get_transaction db' tid' = get_transaction db tid'.
Proof.
  intros Hp Hne.
  apply process_transaction_cases in Hp as [-> | (_ & _ & k & txn & Hfind & ->)];
    [done|].
  apply list_find_Some in Hfind as (Hk & Htid & _).
  unfold get_transaction, query_first.
  rewrite (list_find_insert_other _ db k txn) by (simpl; congruence).
  done.
Qed.

Lemma settlement_keeps_other_lookups_witness :
  process_transaction None 30 "tx-1" [webhook_row 1 0 tx1; webhook_row 2 5 tx2] =
    (None, [mark_processed 30 (webhook_row 1 0 tx1); webhook_row 2 5 tx2]) /\
  get_transaction [mark_processed 30 (webhook_row 1 0 tx1); webhook_row 2 5 tx2] "tx-2" =
    get_transaction [webhook_row 1 0 tx1; webhook_row 2 5 tx2] "tx-2".
Proof.
  split; [reflexivity|].
  exact (settlement_keeps_other_lookups None 30 "tx-1"
           [webhook_row 1 0 tx1; webhook_row 2 5 tx2] None
           [mark_processed 30 (webhook_row 1 0 tx1); webhook_row 2 5 tx2] "tx-2"
           eq_refl ltac:(discriminate)).
Defined.
